(** * geoopt.utils: shape algebra, axis indices and manifold unwrapping

    A shallow embedding of [src/geoopt/utils.py].  Python integers are
    unbounded, hence [Z]; a raised exception is the [Raise] branch of
    [result]; tuples and lists of integers are Rocq lists. *)

From stdpp Require Import base numbers decidable option list.

Open Scope Z_scope.
Set Warnings "-register-all".

(** ** Exceptions and results *)

Inductive exn : Set :=
  | ValueError
  | TypeError
  | IndexError
  | ZeroDivisionError
  | AttributeError.

Inductive result (A : Type) : Type :=
  | Ok (a : A)
  | Raise (e : exn).
Arguments Ok {A} a.
Arguments Raise {A} e.

#[global] Instance exn_eq_dec : EqDecision exn.
Proof. solve_decision. Defined.

#[global] Instance result_eq_dec {A} `{EqDecision A} : EqDecision (result A).
Proof. solve_decision. Defined.

#[global] Instance result_ret : MRet result := @Ok.
#[global] Instance result_bind : MBind result := fun A B f m =>
  match m with
  | Ok a => f a
  | Raise e => Raise e
  end.
#[global] Instance result_fmap : FMap result := fun A B f m =>
  match m with
  | Ok a => Ok (f a)
  | Raise e => Raise e
  end.

Definition is_ok {A} (m : result A) : bool :=
  match m with Ok _ => true | Raise _ => false end.

(** [for x in xs: ...] where the body may raise: the first exception
    aborts the whole traversal. *)
Fixpoint traverse {A B} (f : A → result B) (xs : list A) : result (list B) :=
  match xs with
  | [] => Ok []
  | x :: xs' => y ← f x; ys ← traverse f xs'; Ok (y :: ys)
  end.

(** ** Integer arithmetic *)

(** Python's [a % b]: floor modulo, the result takes the sign of [b];
    [b = 0] raises. *)
Definition py_mod (a b : Z) : result Z :=
  if decide (b = 0) then Raise ZeroDivisionError else Ok (a `mod` b).

(** ** idx2sign, canonical_dims *)

Definition idx2sign (idx dim : Z) (neg : bool) : result Z :=
  if neg then
    if decide (idx < 0) then Ok idx
    else py_mod (idx + 1) (- (dim + 1))
  else py_mod idx dim.

Definition canonical_dims (dims : list Z) (maxdim : Z) : result (list Z) :=
  traverse (fun idx => idx2sign idx maxdim false) dims.

(** ** broadcast_shapes *)

(** [itertools.zip_longest] with [fillvalue=fill]: the j-th tuple
    holds the j-th item of every iterable, [fill] for the iterables that
    are exhausted; the iteration stops once all of them are. *)
Definition max_length (ls : list (list Z)) : nat :=
  foldr (fun l m => Nat.max (length l) m) 0%nat ls.

Fixpoint zip_longest_n (n : nat) (fill : Z) (ls : list (list Z))
  : list (list Z) :=
  match n with
  | O => []
  | S n' => (hd fill <$> ls) :: zip_longest_n n' fill (tail <$> ls)
  end.

Definition zip_longest (fill : Z) (ls : list (list Z)) : list (list Z) :=
  zip_longest_n (max_length ls) fill ls.

(** The inner loop [for d in dims] of [broadcast_shapes], started with
    the current value of [dim]. *)
Fixpoint broadcast_dim (dim : Z) (dims : list Z) : result Z :=
  match dims with
  | [] => Ok dim
  | d :: ds =>
      if bool_decide (dim ≠ 1) && bool_decide (d ≠ 1) && bool_decide (d ≠ dim)
      then Raise ValueError
      else if bool_decide (d > dim) then broadcast_dim d ds
      else broadcast_dim dim ds
  end.

Definition broadcast_shapes (shapes : list (list Z)) : result (list Z) :=
  res ← traverse (broadcast_dim 1) (zip_longest 1 (reverse <$> shapes));
  Ok (reverse res).

(** ** Tuple helpers and reduce_dim *)

(** The Python values these helpers see: [None], an integer, a tuple or
    a list. *)
Inductive pyval : Type :=
  | PNone
  | PInt (z : Z)
  | PTuple (items : list pyval)
  | PList (items : list pyval).

Definition strip_tuple (tup : list pyval) : pyval :=
  match tup with
  | [x] => x
  | _ => PTuple tup
  end.

Definition make_tuple (obj : pyval) : pyval :=
  match obj with
  | PTuple _ => obj
  | _ => PTuple [obj]
  end.

(** [size2shape( *size )]: [size] is the tuple of the positional
    arguments. *)
Definition size2shape (size : list pyval) : pyval :=
  make_tuple (strip_tuple size).

(** [range(n)] *)
Definition py_range (n : Z) : list Z := seqZ 0 n.

(** [del l[i]] for an integer [i]: a negative [i] counts from the end;
    out of range raises. *)
Definition py_del {A} (l : list A) (i : Z) : result (list A) :=
  let n := Z.of_nat (length l) in
  let i' := if decide (i < 0) then i + n else i in
  if decide (0 ≤ i' < n) then Ok (delete (Z.to_nat i') l)
  else Raise IndexError.

Definition reduce_dim (maxdim : Z) (reducedim dim : pyval) : result pyval :=
  match reducedim with
  | PNone =>
      match dim with
      | PInt k =>
          reducedim' ← py_del (py_range maxdim) k;
          Ok (PList (PInt <$> reducedim'))
      | _ => Raise TypeError
      end
  | _ => Ok (size2shape [reducedim])
  end.

(** What the specification calls [resolveAxes], as a Python tuple. *)
Definition resolveAxes (axes : list Z) (rank : Z) : result pyval :=
  (fun l => PTuple (PInt <$> l)) <$> canonical_dims axes rank.

(** [functools.reduce(operator.mul, items, 1)]: a left fold that starts
    from 1. *)
Definition prod (items : list Z) : Z := foldl Z.mul 1 items.

(** ** Manifolds and the Scaled wrapper *)

(** The class hierarchy of [geoopt.manifolds] is defined outside this
    module; it is a parameter: a type of classes, the subclass test, and
    the two classes the module names. *)
Class Hierarchy : Type := {
  pyclass : Type;
  issubclass : pyclass → pyclass → bool;
  Manifold : pyclass;
  Scaled : pyclass;
}.

(** What the module relies on: subclassing is transitive, and [Scaled]
    is declared as a subclass of [Manifold]. *)
Class HierarchyLaws (H : Hierarchy) : Prop := {
  issubclass_trans a b c :
    issubclass a b = true → issubclass b c = true → issubclass a c = true;
  Scaled_is_Manifold : issubclass Scaled Manifold = true;
}.

(** Objects are reached through references, so that a [base] attribute
    may point anywhere, also back to the wrapper itself. *)
Definition loc : Set := nat.

Record object `{Hierarchy} : Type := Object {
  ob_type : pyclass;           (* type(obj) *)
  ob_base : option loc;        (* obj.base, when the attribute is set *)
}.

Definition heap `{Hierarchy} : Type := loc → object.

Section manifolds.
Context `{Hierarchy}.

Definition isinstance (h : heap) (obj : loc) (cls : pyclass) : bool :=
  issubclass (ob_type (h obj)) cls.

(** The [while] loops are run with a bound on the number of times the
    loop condition is evaluated; [None] means the bound was reached. *)
Fixpoint canonical_manifold (fuel : nat) (h : heap) (manifold : loc)
  : option (result loc) :=
  match fuel with
  | O => None
  | S fuel' =>
      if isinstance h manifold Scaled then
        match ob_base (h manifold) with
        | Some base => canonical_manifold fuel' h base
        | None => Some (Raise AttributeError)
        end
      else Some (Ok manifold)
  end.

Fixpoint ismanifold_loop (fuel : nat) (h : heap) (instance : loc)
  (cls : pyclass) : option (result bool) :=
  match fuel with
  | O => None
  | S fuel' =>
      if isinstance h instance Scaled then
        match ob_base (h instance) with
        | Some base => ismanifold_loop fuel' h base cls
        | None => Some (Raise AttributeError)
        end
      else Some (Ok (isinstance h instance cls))
  end.

Definition ismanifold (fuel : nat) (h : heap) (instance : loc)
  (cls : pyclass) : option (result bool) :=
  if negb (issubclass cls Manifold) then Some (Raise TypeError)
  else if negb (isinstance h instance Manifold) then Some (Ok false)
  else ismanifold_loop fuel h instance cls.

(** A wrapper chain: [n] wrappers from [m] down to the first object [t]
    that is not an instance of [Scaled]. *)
Inductive wrapper_chain (h : heap) : loc → nat → loc → Prop :=
  | chain_end m :
      isinstance h m Scaled = false → wrapper_chain h m 0 m
  | chain_wrap m base n t :
      isinstance h m Scaled = true →
      ob_base (h m) = Some base →
      wrapper_chain h base n t →
      wrapper_chain h m (S n) t.
End manifolds.

(** A small hierarchy and heap to run the definitions on. *)
Inductive sample_class : Set :=
  | c_object | c_Manifold | c_Scaled | c_Sphere | c_Euclidean | c_Tensor.

#[global] Instance sample_class_eq_dec : EqDecision sample_class.
Proof. solve_decision. Defined.

Definition sample_issubclass (a b : sample_class) : bool :=
  bool_decide (a = b)
  || bool_decide (b = c_object)
  || (bool_decide (b = c_Manifold)
      && bool_decide (a ∈ [c_Scaled; c_Sphere; c_Euclidean])).

#[global] Instance sample_hierarchy : Hierarchy := {|
  pyclass := sample_class;
  issubclass := sample_issubclass;
  Manifold := c_Manifold;
  Scaled := c_Scaled;
|}.

(** 0: a sphere; 1: Scaled(0); 2: Scaled(1); 3: a tensor;
    4: a Scaled whose base is itself. *)
Definition sample_heap : heap := fun l =>
  match l with
  | 0%nat => Object _ c_Sphere None
  | 1%nat => Object _ c_Scaled (Some 0%nat)
  | 2%nat => Object _ c_Scaled (Some 1%nat)
  | 3%nat => Object _ c_Tensor None
  | 4%nat => Object _ c_Scaled (Some 4%nat)
  | _ => Object _ c_object None
  end.

(** ** Tensors and drop_dims *)

(** [torch.Tensor] is external to this module.  A tensor is taken as its
    shape together with its element at every position; of its indexing
    with a tuple only what [drop_dims] uses is covered: an item is an
    integer or the full slice [slice(None)]. *)
Record tensor (A : Type) : Type := Tensor {
  shape : list Z;
  item : list Z → A;
}.
Arguments Tensor {A} shape item.
Arguments shape {A} t.
Arguments item {A} t pos.

Inductive index : Set :=
  | SliceAll
  | At (i : Z).

(** Shape of [t[slc]]: an integer item removes its axis and must lie in
    [-n, n) for an axis of size [n]; a full slice keeps the axis; axes
    beyond the tuple are kept. *)
Fixpoint index_shape (slc : list index) (shp : list Z) : result (list Z) :=
  match slc, shp with
  | [], _ => Ok shp
  | _ :: _, [] => Raise IndexError
  | SliceAll :: slc', n :: shp' =>
      s ← index_shape slc' shp'; Ok (n :: s)
  | At i :: slc', n :: shp' =>
      if decide (- n ≤ i < n) then index_shape slc' shp'
      else Raise IndexError
  end.

(** The position in [t] that position [pos] of [t[slc]] reads. *)
Fixpoint index_source (slc : list index) (shp : list Z) (pos : list Z)
  : list Z :=
  match slc, shp with
  | SliceAll :: slc', _ :: shp' =>
      match pos with
      | j :: pos' => j :: index_source slc' shp' pos'
      | [] => []
      end
  | At i :: slc', n :: shp' =>
      (if decide (i < 0) then i + n else i) :: index_source slc' shp' pos
  | _, _ => pos
  end.

Definition getitem {A} (t : tensor A) (slc : list index) : result (tensor A) :=
  s ← index_shape slc (shape t);
  Ok (Tensor s (fun pos => item t (index_source slc (shape t) pos))).

(** [tensor.dim()] *)
Definition dim {A} (t : tensor A) : Z := Z.of_nat (length (shape t)).

Definition drop_dims {A} (t : tensor A) (dims : list Z) : result (tensor A) :=
  dims' ← canonical_dims dims (dim t);
  let slc :=
    (fun d => if decide (d ∉ dims') then SliceAll else At 0)
      <$> py_range (dim t) in
  getitem t slc.

(** The entries of [l] whose axis number, counted from [pos], is not
    among [axes]: what is left of a shape, or of a position, once the
    axes [axes] are gone. *)
Fixpoint without_axes {A} (axes : list Z) (pos : Z) (l : list A) : list A :=
  match l with
  | [] => []
  | x :: l' =>
      if decide (pos ∈ axes) then without_axes axes (pos + 1) l'
      else x :: without_axes axes (pos + 1) l'
  end.

(** * Properties *)

Section idx2sign_facts.
Variables (r : Z).
Hypothesis r_pos : 0 < r.

Lemma idx2sign_nonneg_form idx : idx2sign idx r false = Ok (idx `mod` r).
Proof. unfold idx2sign, py_mod. case_decide; [lia | done]. Qed.

Lemma idx2sign_neg_of_neg idx : idx < 0 → idx2sign idx r true = Ok idx.
Proof. intros ?. unfold idx2sign. by case_decide. Qed.

Lemma neg_form_mod idx : 0 ≤ idx < r → (idx + 1) `mod` (- (r + 1)) = idx - r.
Proof.
  intros Hi. symmetry.
  apply (Z.mod_unique_neg _ _ (-1)); lia.
Qed.

Lemma idx2sign_neg_of_nonneg idx :
  0 ≤ idx < r → idx2sign idx r true = Ok (idx - r).
Proof.
  intros Hi. unfold idx2sign, py_mod.
  case_decide; [lia |]. case_decide; [lia |].
  by rewrite neg_form_mod.
Qed.

Lemma shift_mod idx : (idx - r) `mod` r = idx `mod` r.
Proof.
  replace (idx - r) with (idx + (-1) * r) by lia.
  apply Z.mod_add. lia.
Qed.
End idx2sign_facts.

(** C4: for a positive rank [r] and a valid axis index [i] (in [-r, r-1]),
    converting [i] to negative form and then to non-negative form succeeds
    and gives the same axis as converting [i] to non-negative form directly. *)
Theorem idx2sign_round_trip (r i : Z) :
  0 < r → - r ≤ i ≤ r - 1 →
  (j ← idx2sign i r true; idx2sign j r false) = idx2sign i r false
  ∧ idx2sign i r false = Ok (i `mod` r).
Proof.
  intros Hr Hi. split; [| by apply idx2sign_nonneg_form].
  destruct (decide (i < 0)) as [Hneg | Hnn].
  - by rewrite idx2sign_neg_of_neg.
  - rewrite idx2sign_neg_of_nonneg by lia.
    unfold mbind, result_bind.
    rewrite !idx2sign_nonneg_form by done.
    by rewrite shift_mod.
Qed.

Lemma idx2sign_round_trip_witness :
  (j ← idx2sign 1 3 true; idx2sign j 3 false) = idx2sign 1 3 false
  ∧ idx2sign 1 3 false = Ok (1 `mod` 3).
Proof. apply (idx2sign_round_trip 3 1); lia. Defined.

(** C5: for a positive rank [r], [idx2sign idx r True] returns a negative
    [idx] unchanged; for [0 <= idx < r] it returns
    [(idx + 1) mod -(r + 1)], which equals [idx - r], lies in [-r, -1],
    denotes the same axis as [idx], and is the only index of [-r, -1] that
    does.  For rank 3 it sends 0, 1, 2 to -3, -2, -1. *)
Theorem idx2sign_negative_form (r idx : Z) :
  0 < r →
  (idx < 0 → idx2sign idx r true = Ok idx)
  ∧ (0 ≤ idx < r →
       idx2sign idx r true = Ok ((idx + 1) `mod` (- (r + 1)))
       ∧ (idx + 1) `mod` (- (r + 1)) = idx - r
       ∧ - r ≤ idx - r ≤ -1
       ∧ idx2sign (idx - r) r false = idx2sign idx r false
       ∧ ∀ j, - r ≤ j ≤ -1 →
              idx2sign j r false = idx2sign idx r false → j = idx - r)
  ∧ idx2sign 0 3 true = Ok (-3)
  ∧ idx2sign 1 3 true = Ok (-2)
  ∧ idx2sign 2 3 true = Ok (-1).
Proof.
  intros Hr. split; [by apply idx2sign_neg_of_neg |].
  split; [| done].
  intros Hi. rewrite neg_form_mod by done.
  split; [by apply idx2sign_neg_of_nonneg |].
  split; [done |]. split; [lia |].
  split; [by rewrite !idx2sign_nonneg_form, shift_mod |].
  intros j Hj. rewrite !idx2sign_nonneg_form by done.
  intros [= Heq].
  rewrite (Z.mod_small idx r) in Heq by lia.
  assert (j `mod` r = j + r); [| lia].
  symmetry. apply (Z.mod_unique_pos _ _ (-1)); lia.
Qed.

Lemma idx2sign_negative_form_witness :
  (2 < 0 → idx2sign 2 5 true = Ok 2)
  ∧ (0 ≤ 2 < 5 →
       idx2sign 2 5 true = Ok ((2 + 1) `mod` (- (5 + 1)))
       ∧ (2 + 1) `mod` (- (5 + 1)) = 2 - 5
       ∧ - 5 ≤ 2 - 5 ≤ -1
       ∧ idx2sign (2 - 5) 5 false = idx2sign 2 5 false
       ∧ ∀ j, - 5 ≤ j ≤ -1 →
              idx2sign j 5 false = idx2sign 2 5 false → j = 2 - 5)
  ∧ idx2sign 0 3 true = Ok (-3)
  ∧ idx2sign 1 3 true = Ok (-2)
  ∧ idx2sign 2 3 true = Ok (-1).
Proof. apply (idx2sign_negative_form 5 2). lia. Defined.

(** ** Broadcasting *)

Example broadcast_34_4 : broadcast_shapes [[3; 4]; [4]] = Ok [3; 4].
Proof. reflexivity. Qed.

Example broadcast_31_15 : broadcast_shapes [[3; 1]; [1; 5]] = Ok [3; 5].
Proof. reflexivity. Qed.

Example broadcast_34_35 : broadcast_shapes [[3; 4]; [3; 5]] = Raise ValueError.
Proof. reflexivity. Qed.

Example broadcast_scalar : broadcast_shapes [[]] = Ok [].
Proof. reflexivity. Qed.

Example broadcast_nothing : broadcast_shapes [] = Ok [].
Proof. reflexivity. Qed.

Lemma traverse_Ok_Forall2 {A B} (f : A → result B) xs ys :
  traverse f xs = Ok ys ↔ Forall2 (fun x y => f x = Ok y) xs ys.
Proof.
  revert ys. induction xs as [| x xs IH]; intros ys; simpl.
  - split; [intros [= <-]; constructor | by inversion 1].
  - destruct (f x) as [y |] eqn:Hy; simpl.
    + destruct (traverse f xs) as [ys' |] eqn:Hys; simpl.
      * split.
        -- intros [= <-]. constructor; [done | by apply IH].
        -- inversion 1 as [| ? y' ? ys'' Hy' Hys']; subst.
           apply IH in Hys'. congruence.
      * split; [done |].
        inversion 1 as [| ? y' ? ys'' Hy' Hys']; subst.
        apply IH in Hys'. congruence.
    + split; [done |]. inversion 1; congruence.
Qed.

Lemma broadcast_dim_ge dim dims m :
  broadcast_dim dim dims = Ok m → dim ≤ m.
Proof.
  revert dim. induction dims as [| d ds IH]; intros dim; simpl.
  - intros [= <-]. lia.
  - destruct (_ && _); [done |].
    case_bool_decide.
    + intros Hm%IH. lia.
    + by intros Hm%IH.
Qed.

(** C9: whenever [broadcast_shapes] returns a shape, every axis size of it
    is at least 1, so a size-0 input axis never shows in the output; in
    particular [broadcast_shapes((0,))] returns [(1,)]. *)
Theorem broadcast_shapes_sizes_ge_1 (shapes : list (list Z)) (res : list Z) :
  broadcast_shapes shapes = Ok res →
  Forall (fun d => 1 ≤ d) res ∧ (0 ∉ res)
  ∧ broadcast_shapes [[0]] = Ok [1].
Proof.
  unfold broadcast_shapes. intros Hres.
  destruct (traverse _ _) as [cols |] eqn:Hcols; [| done].
  injection Hres as <-.
  apply traverse_Ok_Forall2 in Hcols.
  assert (Forall (fun d => 1 ≤ d) (reverse cols)) as Hall.
  { apply Forall_reverse.
    induction Hcols as [| col d ? ? Hd _ IH]; constructor; [| done].
    by apply broadcast_dim_ge in Hd. }
  split; [done |]. split; [| done].
  intros Hin. rewrite Forall_forall in Hall.
  apply Hall in Hin. lia.
Qed.

Lemma broadcast_shapes_sizes_ge_1_witness :
  Forall (fun d => 1 ≤ d) [2; 1] ∧ (0 ∉ [2; 1])
  ∧ broadcast_shapes [[0]] = Ok [1].
Proof.
  apply (broadcast_shapes_sizes_ge_1 [[2; 0]; [1]] [2; 1]).
  reflexivity.
Defined.

(** Columns of [zip_longest]: position [k] collects item [k] of every
    iterable, the fill value where there is none. *)
Lemma hd_lookup (fill : Z) (l : list Z) : hd fill l = default fill (l !! 0%nat).
Proof. by destruct l. Qed.

Lemma zip_longest_n_lookup (fill : Z) n ls k :
  (k < n)%nat →
  zip_longest_n n fill ls !! k
  = Some ((fun l : list Z => default fill (l !! k)) <$> ls).
Proof.
  revert ls k. induction n as [| n IH]; intros ls k Hk; [lia |].
  destruct k as [| k]; simpl.
  - f_equal. apply list_fmap_ext. intros _ l _. apply hd_lookup.
  - rewrite IH by lia. f_equal.
    rewrite <- list_fmap_compose. apply list_fmap_ext.
    intros _ l _. simpl. by rewrite lookup_tail.
Qed.

Lemma length_zip_longest_n fill n ls : length (zip_longest_n n fill ls) = n.
Proof. revert ls. induction n; intros ls; simpl; [done | by rewrite IHn]. Qed.

Lemma max_length_ge ls (l : list Z) : l ∈ ls → (length l ≤ max_length ls)%nat.
Proof.
  induction 1 as [l ls | l l' ls _ IH]; simpl; lia.
Qed.

Lemma broadcast_dim_exn dim dims e :
  broadcast_dim dim dims = Raise e → e = ValueError.
Proof.
  revert dim. induction dims as [| d ds IH]; intros dim; simpl; [done |].
  destruct (_ && _); [congruence |].
  case_bool_decide; apply IH.
Qed.

Lemma traverse_raise {A B} (f : A → result B) xs k x e :
  (∀ y e', f y = Raise e' → e' = e) →
  xs !! k = Some x → f x = Raise e → traverse f xs = Raise e.
Proof.
  intros Hexn. revert k. induction xs as [| x' xs IH]; intros k; [done |].
  destruct k as [| k]; simpl.
  - intros [= ->] ->. done.
  - intros Hk Hx. destruct (f x') as [y |] eqn:Hy; simpl.
    + by rewrite (IH k).
    + f_equal. by apply Hexn in Hy.
Qed.

(** X23: the half of the size-0 rule that the loop does enforce: when the
    shape with the axis of size [d > 1] comes first and the shape with the
    aligned axis of size 0 second, [broadcast_shapes] raises. *)
Lemma broadcast_larger_then_zero (a b : list Z) (k : nat) (d : Z) :
  reverse a !! k = Some 0 → reverse b !! k = Some d → 1 < d →
  broadcast_shapes [b; a] = Raise ValueError.
Proof.
  intros Ha Hb Hd. unfold broadcast_shapes, zip_longest.
  set (ls := reverse <$> [b; a]).
  assert (k < max_length ls)%nat as Hk.
  { apply lookup_lt_Some in Ha.
    assert (reverse a ∈ ls) as Hin by (subst ls; simpl; apply list_elem_of_further, list_elem_of_here).
    apply max_length_ge in Hin. lia. }
  pose proof (zip_longest_n_lookup 1 _ ls k Hk) as Hcol.
  subst ls. simpl in Hcol. rewrite Ha, Hb in Hcol. simpl in Hcol.
  erewrite traverse_raise; [done | | exact Hcol |].
  - intros ? ?. apply broadcast_dim_exn.
  - simpl. repeat (case_bool_decide; simpl); try done; lia.
Qed.

(** On shapes whose sizes are all at least 1 the result does not depend
    on the order of the shapes. *)
Lemma max_length_perm ls ls' : ls ≡ₚ ls' → max_length ls = max_length ls'.
Proof.
  induction 1; simpl; lia.
Qed.

Lemma zip_longest_n_perm fill n ls ls' :
  ls ≡ₚ ls' →
  Forall2 (≡ₚ) (zip_longest_n n fill ls) (zip_longest_n n fill ls').
Proof.
  revert ls ls'. induction n as [| n IH]; intros ls ls' Hp; simpl.
  - constructor.
  - constructor; [by apply fmap_Permutation |].
    apply IH. by apply fmap_Permutation.
Qed.

Lemma zip_longest_n_ge_1 n ls :
  Forall (Forall (fun d => 1 ≤ d)) ls →
  Forall (Forall (fun d => 1 ≤ d)) (zip_longest_n n 1 ls).
Proof.
  revert ls. induction n as [| n IH]; intros ls Hls; simpl; constructor.
  - apply Forall_fmap. eapply Forall_impl; [exact Hls |].
    intros [| d l] Hl; simpl; [lia | by inversion Hl].
  - apply IH, Forall_fmap. eapply Forall_impl; [exact Hls |].
    intros [| d l] Hl; simpl; [done | by inversion Hl].
Qed.

Lemma broadcast_dim_perm l l' :
  l ≡ₚ l' → Forall (fun d => 1 ≤ d) l →
  ∀ dim, 1 ≤ dim → broadcast_dim dim l = broadcast_dim dim l'.
Proof.
  induction 1 as [| x l l' Hp IH | x y l | l l' l'' Hp1 IH1 Hp2 IH2];
    intros Hl dim Hdim.
  - done.
  - inversion Hl as [| ? ? Hx Hl']; subst. simpl.
    destruct (_ && _); [done |].
    case_bool_decide; by apply IH.
  - inversion Hl as [| ? ? Hy Hl']; subst.
    inversion Hl' as [| ? ? Hx Hl'']; subst. simpl.
    repeat (case_bool_decide; simpl); try done; try lia;
      f_equal; lia.
  - rewrite IH1 by done. apply IH2; [by rewrite <- Hp1 | done].
Qed.

Lemma traverse_ext_Forall2 {A B} (f : A → result B) xs xs' :
  Forall2 (fun x x' => f x = f x') xs xs' → traverse f xs = traverse f xs'.
Proof.
  induction 1 as [| x x' xs xs' Hx _ IH]; simpl; [done |].
  by rewrite Hx, IH.
Qed.

(** X11: without size-0 axes broadcasting is symmetric: any reordering of
    shapes whose sizes are all at least 1 gives the same shape, or raises
    alike. *)
Theorem broadcast_shapes_perm_ge_1 (shapes shapes' : list (list Z)) :
  shapes ≡ₚ shapes' →
  Forall (Forall (fun d => 1 ≤ d)) shapes →
  broadcast_shapes shapes = broadcast_shapes shapes'.
Proof.
  intros Hp Hpos. unfold broadcast_shapes, zip_longest.
  assert (reverse <$> shapes ≡ₚ reverse <$> shapes') as Hp'
    by by apply fmap_Permutation.
  rewrite <- (max_length_perm _ _ Hp').
  set (n := max_length _).
  f_equal. apply traverse_ext_Forall2.
  assert (Forall (Forall (fun d => 1 ≤ d)) (reverse <$> shapes)) as Hpos'.
  { apply Forall_fmap. eapply Forall_impl; [exact Hpos |].
    intros l Hl. simpl. by apply Forall_reverse. }
  pose proof (zip_longest_n_ge_1 n _ Hpos') as Hcols.
  pose proof (zip_longest_n_perm 1 n _ _ Hp') as Hperm.
  clear - Hcols Hperm.
  induction Hperm as [| c c' cs cs' Hc _ IH]; constructor.
  - inversion Hcols; subst. apply broadcast_dim_perm; [done | done | lia].
  - inversion Hcols; subst. by apply IH.
Qed.

Lemma broadcast_shapes_perm_ge_1_witness :
  broadcast_shapes [[3; 1]; [1; 5]; [5]] = broadcast_shapes [[5]; [3; 1]; [1; 5]].
Proof.
  apply broadcast_shapes_perm_ge_1.
  - change ([[3; 1]; [1; 5]] ++ [[5]] ≡ₚ [[5]] ++ [[3; 1]; [1; 5]]).
    apply Permutation_app_comm.
  - repeat constructor; lia.
Defined.

(** C1: a size-0 axis aligned with an axis of size [d > 1] is rejected only
    when the larger size is met first: [broadcast_shapes((0,), (3,))]
    returns [(3,)], while [broadcast_shapes((3,), (0,))] raises. *)
Theorem broadcast_zero_then_larger :
  broadcast_shapes [[0]; [3]] = Ok [3]
  ∧ broadcast_shapes [[3]; [0]] = Raise ValueError.
Proof. split; reflexivity. Qed.

(** C2: the result depends on the order of the shapes once a size-0 axis is
    involved: two orderings of the same three shapes, one returns [(4, 5)]
    and the other raises. *)
Theorem broadcast_shapes_order_dependent :
  [[4; 0]; [1; 5]; [4; 1]] ≡ₚ [[1; 5]; [4; 0]; [4; 1]]
  ∧ broadcast_shapes [[4; 0]; [1; 5]; [4; 1]] = Ok [4; 5]
  ∧ broadcast_shapes [[1; 5]; [4; 0]; [4; 1]] = Raise ValueError.
Proof.
  split; [apply perm_swap |]. split; reflexivity.
Qed.

(** ** reduce_dim *)

Example reduce_dim_keep_axis :
  reduce_dim 4 PNone (PInt 1) = Ok (PList [PInt 0; PInt 2; PInt 3]).
Proof. reflexivity. Qed.

Example reduce_dim_keep_last :
  reduce_dim 4 PNone (PInt (-1)) = Ok (PList [PInt 0; PInt 1; PInt 2]).
Proof. reflexivity. Qed.

Example reduce_dim_keep_out_of_range :
  reduce_dim 4 PNone (PInt 4) = Raise IndexError.
Proof. reflexivity. Qed.

Lemma canonical_dims_mod (r : Z) (dims : list Z) :
  0 < r → canonical_dims dims r = Ok ((fun d => d `mod` r) <$> dims).
Proof.
  intros Hr. unfold canonical_dims.
  induction dims as [| d dims IH]; cbn [traverse]; [done |].
  by rewrite idx2sign_nonneg_form, IH.
Qed.

Lemma canonical_dims_fixed (r : Z) (dims : list Z) :
  0 < r →
  canonical_dims dims r = Ok dims ↔ Forall (fun d => 0 ≤ d < r) dims.
Proof.
  intros Hr. rewrite canonical_dims_mod by done.
  induction dims as [| d dims IH]; simpl.
  - split; [constructor | done].
  - split.
    + intros [= Hd Hds]. constructor.
      * rewrite <- Hd. by apply Z.mod_pos_bound.
      * apply IH. by f_equal.
    + inversion 1 as [| ? ? Hd Hds]; subst.
      apply IH in Hds. injection Hds as Hds.
      f_equal. f_equal; [by apply Z.mod_small | done].
Qed.

#[global] Instance PInt_inj : Inj (=) (=) PInt.
Proof. by intros x y [= ->]. Qed.

(** C3, as stated, fails: with rank 3 the explicit axes [(-1,)] come back
    as [(-1,)], while resolving them gives [(2,)]. *)
Lemma reduce_dim_not_resolved :
  reduce_dim 3 (PTuple [PInt (-1)]) PNone = Ok (PTuple [PInt (-1)])
  ∧ resolveAxes [-1] 3 = Ok (PTuple [PInt 2])
  ∧ reduce_dim 3 (PTuple [PInt (-1)]) PNone ≠ resolveAxes [-1] 3.
Proof. split; [done |]. split; [done |]. discriminate. Qed.

(** C3, amended: for every rank and every tuple of axis indices given as
    explicit axes (and any keep axis), [reduce_dim] returns the explicit
    axes unchanged, in input order, and passes no element through
    [idx2sign]; the result is the resolved axes exactly when every axis
    already lies in [0, rank), and the explicit axis -1 comes back as -1. *)
Theorem reduce_dim_explicit (maxdim : Z) (dim : pyval) (axes : list Z) :
  0 ≤ maxdim →
  reduce_dim maxdim (PTuple (PInt <$> axes)) dim = Ok (PTuple (PInt <$> axes))
  ∧ (reduce_dim maxdim (PTuple (PInt <$> axes)) dim = resolveAxes axes maxdim
     ↔ Forall (fun a => 0 ≤ a < maxdim) axes)
  ∧ reduce_dim maxdim (PTuple [PInt (-1)]) dim = Ok (PTuple [PInt (-1)]).
Proof.
  intros Hrank. split; [done |]. split; [| done].
  change (reduce_dim maxdim (PTuple (PInt <$> axes)) dim)
    with (Ok (PTuple (PInt <$> axes))).
  destruct (decide (maxdim = 0)) as [-> | Hpos].
  - destruct axes as [| a axes].
    + split; [constructor | done].
    + split; [done |]. inversion 1; lia.
  - rewrite <- canonical_dims_fixed by lia.
    unfold resolveAxes.
    destruct (canonical_dims axes maxdim) as [l |]; simpl.
    + split.
      * intros [= Heq]. f_equal. symmetry.
        by apply (inj (fmap PInt)).
      * by intros [= ->].
    + split; discriminate.
Qed.

Lemma reduce_dim_explicit_witness :
  reduce_dim 3 (PTuple (PInt <$> [0; 2])) PNone = Ok (PTuple (PInt <$> [0; 2]))
  ∧ (reduce_dim 3 (PTuple (PInt <$> [0; 2])) PNone = resolveAxes [0; 2] 3
     ↔ Forall (fun a => 0 ≤ a < 3) [0; 2])
  ∧ reduce_dim 3 (PTuple [PInt (-1)]) PNone = Ok (PTuple [PInt (-1)]).
Proof. apply (reduce_dim_explicit 3 PNone [0; 2]). lia. Defined.

(** ** Unwrapping manifolds *)

#[global] Instance sample_hierarchy_laws : HierarchyLaws sample_hierarchy.
Proof.
  split; [| done].
  intros [] [] []; by vm_compute.
Qed.

Lemma sample_chain_2 : wrapper_chain sample_heap 2%nat 2 0%nat.
Proof.
  eapply chain_wrap; [done | done |].
  eapply chain_wrap; [done | done |].
  by apply chain_end.
Defined.

Example canonical_manifold_sample :
  canonical_manifold 3 sample_heap 2%nat = Some (Ok 0%nat)
  ∧ canonical_manifold 2 sample_heap 2%nat = None.
Proof. split; reflexivity. Qed.

Section manifold_facts.
Context `{Hierarchy}.
Implicit Types (h : heap) (m t : loc) (n fuel : nat).

Lemma wrapper_chain_end h m n t :
  wrapper_chain h m n t → isinstance h t Scaled = false.
Proof. induction 1; done. Qed.

Lemma wrapper_chain_concrete h m n t :
  wrapper_chain h m n t → isinstance h m Scaled = false → t = m ∧ n = 0%nat.
Proof. destruct 1; [done | congruence]. Qed.

Lemma canonical_manifold_enough_fuel h m n t :
  wrapper_chain h m n t →
  ∀ fuel, (n < fuel)%nat → canonical_manifold fuel h m = Some (Ok t).
Proof.
  induction 1 as [m Hm | m base n t Hm Hbase _ IH]; intros fuel Hfuel;
    (destruct fuel as [| fuel]; [lia |]); simpl.
  - by rewrite Hm.
  - rewrite Hm, Hbase. apply IH. lia.
Qed.

Lemma canonical_manifold_short_fuel h m n t :
  wrapper_chain h m n t →
  ∀ fuel, (fuel ≤ n)%nat → canonical_manifold fuel h m = None.
Proof.
  induction 1 as [m Hm | m base n t Hm Hbase _ IH]; intros fuel Hfuel;
    (destruct fuel as [| fuel]; [done |]); simpl.
  - lia.
  - rewrite Hm, Hbase. apply IH. lia.
Qed.

(** A wrapper that is its own base: the loop never leaves it. *)
Lemma canonical_manifold_cycle h m fuel :
  isinstance h m Scaled = true → ob_base (h m) = Some m →
  canonical_manifold fuel h m = None.
Proof.
  intros Hm Hbase. induction fuel as [| fuel IH]; simpl; [done |].
  by rewrite Hm, Hbase.
Qed.

Lemma ismanifold_loop_enough_fuel h m n t cls :
  wrapper_chain h m n t →
  ∀ fuel, (n < fuel)%nat →
  ismanifold_loop fuel h m cls = Some (Ok (isinstance h t cls)).
Proof.
  induction 1 as [m Hm | m base n t Hm Hbase _ IH]; intros fuel Hfuel;
    (destruct fuel as [| fuel]; [lia |]); simpl.
  - by rewrite Hm.
  - rewrite Hm, Hbase. apply IH. lia.
Qed.

Lemma ismanifold_loop_not_Scaled h m fuel :
  ismanifold_loop fuel h m Scaled ≠ Some (Ok true).
Proof.
  revert m. induction fuel as [| fuel IH]; intros m; simpl; [done |].
  destruct (isinstance h m Scaled) eqn:Hm.
  - destruct (ob_base (h m)); [apply IH | done].
  - done.
Qed.
End manifold_facts.

(** C6: on a wrapper chain of any length [n] that ends in a concrete
    manifold [t], [canonical_manifold] stops, after [n + 1] tests of the
    loop condition, and returns [t], which is not a [Scaled]; a manifold
    that is not wrapped is returned unchanged. *)
Theorem canonical_manifold_unwraps `{Hierarchy} (h : heap) (m t : loc) (n : nat) :
  wrapper_chain h m n t →
  (∀ fuel, (n < fuel)%nat → canonical_manifold fuel h m = Some (Ok t))
  ∧ isinstance h t Scaled = false
  ∧ (isinstance h m Scaled = false →
     t = m ∧ ∀ fuel, canonical_manifold (S fuel) h m = Some (Ok m)).
Proof.
  intros Hchain.
  split; [by apply canonical_manifold_enough_fuel |].
  split; [by eapply wrapper_chain_end |].
  intros Hm.
  destruct (wrapper_chain_concrete _ _ _ _ Hchain Hm) as [-> ->].
  split; [done |]. intros fuel.
  apply (canonical_manifold_enough_fuel _ _ _ _ Hchain). lia.
Qed.

Lemma canonical_manifold_unwraps_witness :
  (∀ fuel, (2 < fuel)%nat →
     canonical_manifold fuel sample_heap 2%nat = Some (Ok 0%nat))
  ∧ isinstance sample_heap 0%nat Scaled = false
  ∧ (isinstance sample_heap 2%nat Scaled = false →
     0%nat = 2%nat
     ∧ ∀ fuel, canonical_manifold (S fuel) sample_heap 2%nat = Some (Ok 2%nat)).
Proof. apply (canonical_manifold_unwraps sample_heap 2%nat 0%nat 2 sample_chain_2). Defined.

(** C7: for an instance at the head of a wrapper chain of any depth and a
    class [cls] that is a subclass of [Manifold], [ismanifold] gives the
    same answer on the instance and on its unwrapped manifold. *)
Theorem ismanifold_unwrap_transparent `{HierarchyLaws}
  (h : heap) (instance t : loc) (n : nat) (cls : pyclass) :
  wrapper_chain h instance n t →
  issubclass cls Manifold = true →
  ∀ fuel, (n < fuel)%nat →
    ∃ b : bool,
      canonical_manifold fuel h instance = Some (Ok t)
      ∧ ismanifold fuel h instance cls = Some (Ok b)
      ∧ ismanifold fuel h t cls = Some (Ok b).
Proof.
  intros Hchain Hcls fuel Hfuel.
  pose proof (wrapper_chain_end _ _ _ _ Hchain) as Ht.
  assert (∀ x, isinstance h x Manifold = false → isinstance h x cls = false)
    as Hnot.
  { intros x Hx. destruct (isinstance h x cls) eqn:Hxc; [| done].
    unfold isinstance in *.
    by rewrite (issubclass_trans _ _ _ Hxc Hcls) in Hx. }
  assert (ismanifold fuel h t cls = Some (Ok (isinstance h t cls))) as Hrhs.
  { unfold ismanifold. rewrite Hcls. simpl.
    destruct (isinstance h t Manifold) eqn:HtM; simpl.
    - apply (ismanifold_loop_enough_fuel h t 0 t); [by apply chain_end | lia].
    - by rewrite Hnot. }
  exists (isinstance h t cls).
  split; [by apply (canonical_manifold_enough_fuel _ _ _ _ Hchain) |].
  split; [| done].
  unfold ismanifold. rewrite Hcls. simpl.
  destruct (isinstance h instance Manifold) eqn:HiM; simpl.
  - by apply (ismanifold_loop_enough_fuel _ _ _ _ _ Hchain).
  - assert (isinstance h instance Scaled = false) as HiS.
    { destruct (isinstance h instance Scaled) eqn:HiS; [| done].
      unfold isinstance in *.
      by rewrite (issubclass_trans _ _ _ HiS Scaled_is_Manifold) in HiM. }
    destruct (wrapper_chain_concrete _ _ _ _ Hchain HiS) as [-> _].
    by rewrite Hnot.
Qed.

Lemma ismanifold_unwrap_transparent_witness :
  ∃ b : bool,
    canonical_manifold 3 sample_heap 2%nat = Some (Ok 0%nat)
    ∧ ismanifold 3 sample_heap 2%nat c_Sphere = Some (Ok b)
    ∧ ismanifold 3 sample_heap 0%nat c_Sphere = Some (Ok b).
Proof.
  apply (ismanifold_unwrap_transparent sample_heap 2%nat 0%nat 2 c_Sphere).
  - exact sample_chain_2.
  - reflexivity.
  - lia.
Defined.

(** C10: [ismanifold(instance, Scaled)] is false for every instance: the
    loop only stops on an object that is not a [Scaled], and the class
    test is made on that object.  On a wrapper chain it returns false. *)
Theorem ismanifold_Scaled_false `{HierarchyLaws}
  (h : heap) (instance t : loc) (n : nat) :
  wrapper_chain h instance n t →
  (∀ fuel, (n < fuel)%nat → ismanifold fuel h instance Scaled = Some (Ok false))
  ∧ (∀ fuel (x : loc), ismanifold fuel h x Scaled ≠ Some (Ok true)).
Proof.
  intros Hchain. split.
  - intros fuel Hfuel. unfold ismanifold.
    rewrite Scaled_is_Manifold. simpl.
    destruct (isinstance h instance Manifold); simpl; [| done].
    rewrite (ismanifold_loop_enough_fuel _ _ _ _ _ Hchain) by done.
    by rewrite (wrapper_chain_end _ _ _ _ Hchain).
  - intros fuel x. unfold ismanifold.
    destruct (negb _); [done |].
    destruct (negb _); [done |].
    apply ismanifold_loop_not_Scaled.
Qed.

Lemma ismanifold_Scaled_false_witness :
  (∀ fuel, (2 < fuel)%nat →
     ismanifold fuel sample_heap 2%nat Scaled = Some (Ok false))
  ∧ (∀ fuel (x : loc), ismanifold fuel sample_heap x Scaled ≠ Some (Ok true)).
Proof. apply (ismanifold_Scaled_false sample_heap 2%nat 0%nat 2 sample_chain_2). Defined.


(** ** Dropping axes *)

Example drop_dims_last {A} (f : list Z → A) :
  shape <$> drop_dims (Tensor [2; 3; 4] f) [-1] = Ok [2; 3].
Proof. reflexivity. Qed.

Example drop_dims_empty_axis {A} (f : list Z → A) :
  shape <$> drop_dims (Tensor [2; 0] f) [1] = Raise IndexError.
Proof. reflexivity. Qed.

Example drop_dims_rank_0 {A} (f : list Z → A) :
  shape <$> drop_dims (Tensor [] f) [0] = Raise ZeroDivisionError.
Proof. reflexivity. Qed.

Section drop_dims_facts.
Variable axes : list Z.

Let slc_of (d : Z) : index := if decide (d ∉ axes) then SliceAll else At 0.

Lemma range_cons (pos : Z) (n : nat) :
  seqZ pos (Z.of_nat (S n)) = pos :: seqZ (pos + 1) (Z.of_nat n).
Proof.
  rewrite seqZ_cons by lia. f_equal. f_equal; lia.
Qed.

Lemma index_shape_without pos (shp : list Z) :
  (∀ (k : nat) n, pos + Z.of_nat k ∈ axes → shp !! k = Some n → 0 < n) →
  index_shape (slc_of <$> seqZ pos (Z.of_nat (length shp))) shp
  = Ok (without_axes axes pos shp).
Proof.
  revert pos. induction shp as [| n shp IH]; intros pos Hpos; [done |].
  cbn [length]. rewrite range_cons. cbn [fmap list_fmap].
  assert (index_shape (slc_of <$> seqZ (pos + 1) (Z.of_nat (length shp))) shp
          = Ok (without_axes axes (pos + 1) shp)) as Hrec.
  { apply IH. intros k m Hk Hm. apply (Hpos (S k) m); [| done].
    by replace (pos + Z.of_nat (S k)) with (pos + 1 + Z.of_nat k) by lia. }
  unfold slc_of at 1. simpl. destruct (decide (pos ∉ axes)) as [Hout | Hin].
  - rewrite decide_False by done.
    fold (fmap (M:=list) slc_of). by rewrite Hrec.
  - apply dec_stable in Hin. rewrite (decide_True (P := pos ∈ axes)) by done.
    assert (0 < n) as Hn.
    { apply (Hpos 0%nat n); [| done]. simpl. by rewrite Z.add_0_r. }
    rewrite decide_True by lia. exact Hrec.
Qed.

Lemma index_source_without pos (shp idx : list Z) :
  length idx = length shp →
  (∀ k : nat, pos + Z.of_nat k ∈ axes → idx !! k = Some 0) →
  index_source (slc_of <$> seqZ pos (Z.of_nat (length shp))) shp
    (without_axes axes pos idx) = idx.
Proof.
  revert pos idx. induction shp as [| n shp IH]; intros pos idx Hlen Hpos.
  - by destruct idx.
  - destruct idx as [| j idx]; [done |].
    cbn [length]. rewrite range_cons. cbn [fmap list_fmap].
    assert (index_source (slc_of <$> seqZ (pos + 1) (Z.of_nat (length shp)))
              shp (without_axes axes (pos + 1) idx) = idx) as Hrec.
    { apply IH; [by injection Hlen |].
      intros k Hk. apply (Hpos (S k)).
      by replace (pos + Z.of_nat (S k)) with (pos + 1 + Z.of_nat k) by lia. }
    unfold slc_of at 1. simpl. destruct (decide (pos ∉ axes)) as [Hout | Hin].
    + rewrite decide_False by done.
      fold (fmap (M:=list) slc_of). by rewrite Hrec.
    + apply dec_stable in Hin. rewrite (decide_True (P := pos ∈ axes)) by done.
      fold (fmap (M:=list) slc_of). rewrite Hrec.
      specialize (Hpos 0%nat). simpl in Hpos.
      rewrite Z.add_0_r in Hpos. specialize (Hpos Hin).
      by injection Hpos as ->.
Qed.
Lemma index_shape_empty_axis pos (shp : list Z) (k : nat) n :
  pos + Z.of_nat k ∈ axes → shp !! k = Some n → n ≤ 0 →
  index_shape (slc_of <$> seqZ pos (Z.of_nat (length shp))) shp
  = Raise IndexError.
Proof.
  revert pos k. induction shp as [| m shp IH]; intros pos k Hin Hk Hn; [done |].
  cbn [length]. rewrite range_cons. cbn [fmap list_fmap].
  destruct k as [| k].
  - injection Hk as ->. rewrite Nat2Z.inj_0, Z.add_0_r in Hin.
    unfold slc_of at 1. simpl.
    rewrite (decide_False (P := pos ∉ axes)) by (intros Hout; by apply Hout).
    by rewrite decide_False by lia.
  - assert (index_shape (slc_of <$> seqZ (pos + 1) (Z.of_nat (length shp))) shp
            = Raise IndexError) as Hrec.
    { apply (IH (pos + 1) k); [| done | done].
      by replace (pos + 1 + Z.of_nat k) with (pos + Z.of_nat (S k)) by lia. }
    unfold slc_of at 1. simpl.
    destruct (decide (pos ∉ axes)) as [Hout | Hdrop];
      fold (fmap (M:=list) slc_of); rewrite Hrec.
    + done.
    + by destruct (decide _).
Qed.
End drop_dims_facts.

(** Where the two steps are not defined they raise: there is no axis to
    canonicalise against on a tensor of rank 0, and no index 0 along an
    empty axis. *)
Lemma drop_dims_no_axes {A} (t : tensor A) (d : Z) (dims : list Z) :
  dim t = 0 → drop_dims t (d :: dims) = Raise ZeroDivisionError.
Proof. intros Hrank. unfold drop_dims. by rewrite Hrank. Qed.

Lemma drop_dims_no_first {A} (t : tensor A) (dims : list Z) (k : nat) n :
  0 < dim t →
  Z.of_nat k ∈ (fun d => d `mod` dim t) <$> dims →
  shape t !! k = Some n → n ≤ 0 →
  drop_dims t dims = Raise IndexError.
Proof.
  intros Hrank Hin Hk Hn. unfold drop_dims.
  rewrite canonical_dims_mod by done.
  unfold mbind at 1, result_bind, getitem, py_range, dim.
  by rewrite (index_shape_empty_axis _ 0 (shape t) k n).
Qed.

(** C8, as stated, fails: not every tensor and every axes give a view.
    Dropping the empty axis of a tensor of shape (2,0) raises, and so does
    any axis given for a tensor of rank 0. *)
Lemma drop_dims_not_every_tensor :
  drop_dims (Tensor [2; 0] (fun _ => 0)) [1] = Raise IndexError
  ∧ drop_dims (Tensor [] (fun _ => 0)) [0] = Raise ZeroDivisionError
  ∧ ¬ (∃ t', drop_dims (Tensor [2; 0] (fun _ => 0)) [1] = Ok t').
Proof.
  split; [reflexivity |]. split; [reflexivity |].
  intros [t' Ht']. discriminate Ht'.
Qed.

(** C8, amended: for a tensor of rank at least 1 and axes that, brought to
    non-negative form against the rank, all have at least one element,
    [drop_dims] takes index 0 along each of those axes and the full range
    along the others: the axes are gone from the shape, and the element at
    a position of the result is the element of the tensor at that position
    with 0 filled in at the dropped axes.  A tensor of shape (2,3,4) with
    axes {1} gives shape (2,4), holding the elements at index 0 of axis 1. *)
Theorem drop_dims_selects_first {A} (t : tensor A) (dims : list Z) :
  let axes := (fun d => d `mod` dim t) <$> dims in
  0 < dim t →
  (∀ (k : nat) n, Z.of_nat k ∈ axes → shape t !! k = Some n → 0 < n) →
  canonical_dims dims (dim t) = Ok axes
  ∧ (∃ t', drop_dims t dims = Ok t'
       ∧ shape t' = without_axes axes 0 (shape t)
       ∧ ∀ idx, length idx = length (shape t) →
           (∀ k : nat, Z.of_nat k ∈ axes → idx !! k = Some 0) →
           item t' (without_axes axes 0 idx) = item t idx)
  ∧ (∀ u : tensor A, shape u = [2; 3; 4] →
       ∃ u', drop_dims u [1] = Ok u'
         ∧ shape u' = [2; 4]
         ∧ ∀ i k, item u' [i; k] = item u [i; 0; k]).
Proof.
  intros axes Hrank Hsizes.
  assert (canonical_dims dims (dim t) = Ok axes) as Hcanon
    by by apply canonical_dims_mod.
  split; [done |]. split.
  - unfold drop_dims. rewrite Hcanon.
    unfold mbind at 1, result_bind, getitem, py_range, dim.
    rewrite (index_shape_without axes 0 (shape t)) by done.
    eexists. split; [reflexivity |]. split; [done |].
    intros idx Hlen Hzero. cbn [item].
    by rewrite (index_source_without axes 0 (shape t) idx).
  - intros [shp f] Hshp. simpl in Hshp. subst shp.
    eexists. split; [reflexivity |]. split; [reflexivity |].
    intros i k. reflexivity.
Qed.

Lemma drop_dims_selects_first_witness :
  canonical_dims [-1; 0] 3 = Ok [2; 0]
  ∧ (∃ t', drop_dims (Tensor [2; 3; 4] (fun pos => pos)) [-1; 0] = Ok t'
       ∧ shape t' = [3]
       ∧ ∀ idx, length idx = 3%nat →
           (∀ k : nat, Z.of_nat k ∈ [2; 0] → idx !! k = Some 0) →
           item t' (without_axes [2; 0] 0 idx) = idx)
  ∧ (∀ u : tensor (list Z), shape u = [2; 3; 4] →
       ∃ u', drop_dims u [1] = Ok u'
         ∧ shape u' = [2; 4]
         ∧ ∀ i k, item u' [i; k] = item u [i; 0; k]).
Proof.
  apply (drop_dims_selects_first (Tensor [2; 3; 4] (fun pos => pos)) [-1; 0]).
  - reflexivity.
  - intros k n _ Hk.
    destruct k as [| [| [| k]]]; simpl in Hk; [| | | done];
      injection Hk as <-; lia.
Defined.

(** * Further properties *)

(** ** Axis indices *)

(** X1: [idx2sign] raises only by a division by zero, exactly when a
    non-negative form is asked for rank 0, or a negative form of a
    non-negative index for rank -1; a negative index asked in negative
    form never raises. *)
Theorem idx2sign_raises (idx dim : Z) (neg : bool) :
  ((∃ e, idx2sign idx dim neg = Raise e)
   ↔ (neg = false ∧ dim = 0) ∨ (neg = true ∧ 0 ≤ idx ∧ dim = -1))
  ∧ (∀ e, idx2sign idx dim neg = Raise e → e = ZeroDivisionError).
Proof.
  unfold idx2sign, py_mod. destruct neg.
  - destruct (decide (idx < 0)) as [Hneg | Hnn].
    + split; [| done]. split; [by intros [e ?] |].
      intros [[? _] | (_ & ? & _)]; [done | lia].
    + destruct (decide (- (dim + 1) = 0)) as [Hz | Hnz].
      * split; [| by intros e [= <-]].
        split; [intros _; right; lia | by eauto].
      * split; [| done]. split; [by intros [e ?] |].
        intros [[? _] | (_ & _ & ?)]; [done | lia].
  - destruct (decide (dim = 0)) as [Hz | Hnz].
    + split; [| by intros e [= <-]]. split; [by left | by eauto].
    + split; [| done]. split; [by intros [e ?] |].
      intros [[_ ?] | (? & _)]; done.
Qed.

(** X2: for a positive rank the non-negative form always exists, lies in
    [0, dim), is left alone by a second conversion, and does not tell an
    index from the same index moved by a multiple of the rank: an index
    out of range is wrapped, not rejected. *)
Theorem idx2sign_wraps (idx dim k : Z) :
  0 < dim →
  ∃ v, idx2sign idx dim false = Ok v
       ∧ 0 ≤ v < dim
       ∧ idx2sign v dim false = Ok v
       ∧ idx2sign (idx + k * dim) dim false = Ok v.
Proof.
  intros Hdim. exists (idx `mod` dim).
  rewrite !idx2sign_nonneg_form by done.
  pose proof (Z.mod_pos_bound idx dim Hdim) as Hb.
  split; [done |]. split; [done |]. split.
  - by rewrite Z.mod_small.
  - by rewrite Z.mod_add by lia.
Qed.

Lemma idx2sign_wraps_witness :
  ∃ v, idx2sign 7 3 false = Ok v
       ∧ 0 ≤ v < 3
       ∧ idx2sign v 3 false = Ok v
       ∧ idx2sign (7 + (-4) * 3) 3 false = Ok v.
Proof. apply (idx2sign_wraps 7 3 (-4)). lia. Defined.

(** X3: the round trip in the other direction: for a positive rank [r] and
    a valid index [i], going to non-negative form and then to negative form
    gives what the negative form of [i] is directly, an index of [-r, -1]. *)
Theorem idx2sign_round_trip_neg (r i : Z) :
  0 < r → - r ≤ i < r →
  ∃ v, (j ← idx2sign i r false; idx2sign j r true) = Ok v
       ∧ idx2sign i r true = Ok v
       ∧ - r ≤ v ≤ -1.
Proof.
  intros Hr Hi. rewrite idx2sign_nonneg_form by done.
  unfold mbind, result_bind.
  destruct (decide (i < 0)) as [Hneg | Hnn].
  - exists i. rewrite (idx2sign_neg_of_neg r i) by done.
    assert (i `mod` r = i + r) as ->.
    { symmetry. apply (Z.mod_unique_pos _ _ (-1)); lia. }
    rewrite idx2sign_neg_of_nonneg by lia.
    split; [f_equal; lia |]. split; [done | lia].
  - exists (i - r). rewrite Z.mod_small by lia.
    rewrite idx2sign_neg_of_nonneg by lia.
    split; [done |]. split; [done | lia].
Qed.

Lemma idx2sign_round_trip_neg_witness :
  ∃ v, (j ← idx2sign (-2) 3 false; idx2sign j 3 true) = Ok v
       ∧ idx2sign (-2) 3 true = Ok v
       ∧ - 3 ≤ v ≤ -1.
Proof. apply (idx2sign_round_trip_neg 3 (-2)); lia. Defined.

(** X4: the negative form of a non-negative index is not always negative:
    for a rank [dim >= 0] and any [idx >= 0] it lies in [-dim, 0], and it is
    0 exactly when [dim + 1] divides [idx + 1], as for the index [dim], one
    past the last axis. *)
Theorem idx2sign_negative_form_zero (idx dim : Z) :
  0 ≤ dim → 0 ≤ idx →
  ∃ v, idx2sign idx dim true = Ok v
       ∧ - dim ≤ v ≤ 0
       ∧ (v = 0 ↔ (idx + 1) `mod` (dim + 1) = 0)
       ∧ idx2sign dim dim true = Ok 0.
Proof.
  intros Hdim Hidx. unfold idx2sign, py_mod.
  rewrite (decide_False (P := idx < 0)) by lia.
  rewrite (decide_False (P := dim < 0)) by lia.
  rewrite !(decide_False (P := - (dim + 1) = 0)) by lia.
  eexists. split; [done |].
  pose proof (Z.mod_neg_bound (idx + 1) (- (dim + 1))) as Hb.
  split; [lia |]. split; [split |].
  - intros Hz. apply (Z.mod_opp_r_z _ (- (dim + 1))) in Hz; [| lia].
    by rewrite Z.opp_involutive in Hz.
  - intros Hz. apply Z.mod_opp_r_z; [lia | done].
  - f_equal. rewrite (Z.mod_opp_r_z (dim + 1) (dim + 1)); [done | lia |].
    apply Z.mod_same. lia.
Qed.

Lemma idx2sign_negative_form_zero_witness :
  ∃ v, idx2sign 7 3 true = Ok v
       ∧ - 3 ≤ v ≤ 0
       ∧ (v = 0 ↔ (7 + 1) `mod` (3 + 1) = 0)
       ∧ idx2sign 3 3 true = Ok 0.
Proof. apply (idx2sign_negative_form_zero 7 3); lia. Defined.

Lemma canonical_dims_nonzero (dims : list Z) (maxdim : Z) :
  maxdim ≠ 0 →
  canonical_dims dims maxdim = Ok ((fun d => d `mod` maxdim) <$> dims).
Proof.
  intros Hnz. unfold canonical_dims.
  induction dims as [| d dims IH]; cbn [traverse]; [done |].
  rewrite IH. unfold idx2sign, py_mod. by rewrite decide_False by done.
Qed.

(** X5: for a positive rank [canonical_dims] never raises; it keeps the
    number and the order of the axes, sends each axis [d] to [d mod maxdim]
    in [0, maxdim), and leaves its own result unchanged when applied again. *)
Theorem canonical_dims_range (dims : list Z) (maxdim : Z) :
  0 < maxdim →
  ∃ axes, canonical_dims dims maxdim = Ok axes
          ∧ length axes = length dims
          ∧ (∀ (i : nat) d, dims !! i = Some d →
               axes !! i = Some (d `mod` maxdim))
          ∧ Forall (fun a => 0 ≤ a < maxdim) axes
          ∧ canonical_dims axes maxdim = Ok axes.
Proof.
  intros Hpos. eexists. split; [by apply canonical_dims_mod |].
  assert (Forall (fun a => 0 ≤ a < maxdim)
            ((fun d => d `mod` maxdim) <$> dims)) as Hrange.
  { apply Forall_fmap, Forall_true. intros d. simpl.
    by apply Z.mod_pos_bound. }
  split; [by rewrite length_fmap |]. split.
  - intros i d Hi. by rewrite list_lookup_fmap, Hi.
  - split; [done |]. by apply canonical_dims_fixed.
Qed.

Lemma canonical_dims_range_witness :
  ∃ axes, canonical_dims [-1; 4; 0] 3 = Ok axes
          ∧ length axes = length [-1; 4; 0]
          ∧ (∀ (i : nat) d, [-1; 4; 0] !! i = Some d →
               axes !! i = Some (d `mod` 3))
          ∧ Forall (fun a => 0 ≤ a < 3) axes
          ∧ canonical_dims axes 3 = Ok axes.
Proof. apply (canonical_dims_range [-1; 4; 0] 3). lia. Defined.

(** X6: [canonical_dims] raises, by a division by zero, exactly when there
    is at least one axis to resolve against rank 0; with no axes it returns
    the empty tuple whatever the rank. *)
Theorem canonical_dims_raises (dims : list Z) (maxdim : Z) :
  ((∃ e, canonical_dims dims maxdim = Raise e) ↔ maxdim = 0 ∧ dims ≠ [])
  ∧ (∀ e, canonical_dims dims maxdim = Raise e → e = ZeroDivisionError)
  ∧ canonical_dims [] maxdim = Ok [].
Proof.
  destruct (decide (maxdim = 0)) as [-> | Hnz].
  - destruct dims as [| d dims].
    + split; [| done]. split; [by intros [e ?] | by intros [_ ?]].
    + assert (canonical_dims (d :: dims) 0 = Raise ZeroDivisionError) as ->
        by done.
      split; [split; [done | by eauto] |].
      split; [by intros e [= <-] | done].
  - rewrite canonical_dims_nonzero by done.
    split; [| done]. split; [by intros [e ?] | by intros [? _]].
Qed.

(** ** reduce_dim without explicit axes *)

Lemma length_py_range (n : Z) : Z.of_nat (length (py_range n)) = Z.max 0 n.
Proof. unfold py_range. rewrite length_seqZ. lia. Qed.

Lemma delete_py_range (n k : Z) :
  0 ≤ k < n →
  delete (Z.to_nat k) (py_range n) = seqZ 0 k ++ seqZ (k + 1) (n - k - 1).
Proof.
  intros Hk. unfold py_range.
  replace n with (k + (n - k)) at 1 by lia.
  rewrite seqZ_app by lia.
  rewrite (seqZ_cons (0 + k)) by lia.
  replace (Z.to_nat k) with (length (seqZ 0 k))
    by (rewrite length_seqZ; lia).
  rewrite delete_middle. f_equal; f_equal; lia.
Qed.

(** X7: with no explicit axes and a keep axis [k] in [-maxdim, maxdim),
    [reduce_dim] returns, as a list in increasing order, every axis of
    [0, maxdim) but the kept one, a negative [k] counting from the last
    axis: [maxdim - 1] axes in all. *)
Theorem reduce_dim_all_but_one (maxdim k : Z) :
  - maxdim ≤ k < maxdim →
  let kept := if decide (k < 0) then k + maxdim else k in
  ∃ axes, reduce_dim maxdim PNone (PInt k) = Ok (PList (PInt <$> axes))
          ∧ axes = seqZ 0 kept ++ seqZ (kept + 1) (maxdim - kept - 1)
          ∧ Z.of_nat (length axes) = maxdim - 1
          ∧ ∀ a, a ∈ axes ↔ 0 ≤ a < maxdim ∧ a ≠ kept.
Proof.
  intros Hk kept.
  assert (0 ≤ kept < maxdim) as Hkept by (subst kept; case_decide; lia).
  exists (seqZ 0 kept ++ seqZ (kept + 1) (maxdim - kept - 1)).
  split; [| split; [done | split]].
  - unfold reduce_dim, py_del. rewrite length_py_range.
    replace (Z.max 0 maxdim) with maxdim by lia.
    fold kept. rewrite decide_True by done.
    unfold mbind, result_bind. by rewrite delete_py_range.
  - rewrite length_app, !length_seqZ. lia.
  - intros a. rewrite elem_of_app, !elem_of_seqZ. lia.
Qed.

Lemma reduce_dim_all_but_one_witness :
  ∃ axes, reduce_dim 4 PNone (PInt (-3)) = Ok (PList (PInt <$> axes))
          ∧ axes = seqZ 0 1 ++ seqZ (1 + 1) (4 - 1 - 1)
          ∧ Z.of_nat (length axes) = 4 - 1
          ∧ ∀ a, a ∈ axes ↔ 0 ≤ a < 4 ∧ a ≠ 1.
Proof. apply (reduce_dim_all_but_one 4 (-3)). lia. Defined.

(** X8: with no explicit axes [reduce_dim] raises an [IndexError] exactly
    when the keep axis is outside [-n, n), [n] being the number of axes
    ([0] for a rank that is not positive, where every keep axis fails);
    a keep axis of [None] is a [TypeError]. *)
Theorem reduce_dim_keep_out_of_bounds (maxdim k : Z) :
  (reduce_dim maxdim PNone (PInt k) = Raise IndexError
   ↔ ¬ (- Z.max 0 maxdim ≤ k < Z.max 0 maxdim))
  ∧ reduce_dim (Z.min 0 maxdim) PNone (PInt k) = Raise IndexError
  ∧ reduce_dim maxdim PNone PNone = Raise TypeError.
Proof.
  assert (∀ m, reduce_dim m PNone (PInt k) = Raise IndexError
               ↔ ¬ (- Z.max 0 m ≤ k < Z.max 0 m)) as Hiff.
  { intros m. unfold reduce_dim, py_del. rewrite length_py_range.
    destruct (decide (k < 0)); case_decide; simpl; split;
      try done; try lia; by intros []. }
  split; [done |]. split; [| done].
  apply Hiff. lia.
Qed.

(** ** Tuple helpers and products *)

Lemma foldl_mul_acc (acc : Z) (items : list Z) :
  foldl Z.mul acc items = acc * foldl Z.mul 1 items.
Proof.
  revert acc. induction items as [| x items IH]; intros acc; simpl; [lia |].
  rewrite (IH (acc * x)), (IH (1 * x)). lia.
Qed.

(** X9: [prod] of nothing is 1, it turns concatenation into
    multiplication, and it is 0 exactly when one of the items is 0 (a shape
    with an empty axis holds no element). *)
Theorem prod_app_zero (items more : list Z) :
  prod [] = 1
  ∧ prod (items ++ more) = prod items * prod more
  ∧ (prod items = 0 ↔ 0 ∈ items).
Proof.
  unfold prod. split; [done |]. split.
  - by rewrite foldl_app, foldl_mul_acc.
  - induction items as [| x items IH]; simpl.
    + split; [done | by intros ?%elem_of_nil].
    + rewrite foldl_mul_acc, elem_of_cons, <- IH. lia.
Qed.

(** X10: [size2shape] always returns a tuple and is not changed by a
    second application; called with the sizes one by one, or with one tuple
    holding them, it gives the same tuple of sizes. *)
Theorem size2shape_tuple (size : list pyval) (sizes : list Z) :
  (∃ items, size2shape size = PTuple items)
  ∧ size2shape [size2shape size] = size2shape size
  ∧ size2shape (PInt <$> sizes) = PTuple (PInt <$> sizes)
  ∧ size2shape [PTuple (PInt <$> sizes)] = PTuple (PInt <$> sizes).
Proof.
  assert (∃ items, size2shape size = PTuple items) as [items Hitems].
  { unfold size2shape.
    destruct size as [| x [| y size]]; simpl; [by eauto | | by eauto].
    destruct x; simpl; by eauto. }
  split; [by eauto |]. split; [by rewrite Hitems |].
  split; [| done].
  by destruct sizes as [| x [| y sizes]].
Qed.

(** ** Broadcasting, continued *)

Lemma broadcast_dim_app (dim : Z) (l l' : list Z) :
  broadcast_dim dim (l ++ l') = (r ← broadcast_dim dim l; broadcast_dim r l').
Proof.
  revert dim. induction l as [| d l IH]; intros dim; simpl; [done |].
  destruct (_ && _); [done |].
  case_bool_decide; apply IH.
Qed.

Lemma broadcast_dim_restart (r : Z) (l : list Z) :
  1 ≤ r → broadcast_dim 1 (r :: l) = broadcast_dim r l.
Proof.
  intros Hr. simpl.
  case_bool_decide; [done |]. by replace r with 1 by lia.
Qed.

Lemma broadcast_dim_ones (dim : Z) (n : nat) :
  1 ≤ dim → broadcast_dim dim (replicate n 1) = Ok dim.
Proof.
  intros Hdim. induction n as [| n IH]; simpl; [done |].
  rewrite andb_false_r. simpl. by rewrite bool_decide_false by lia.
Qed.

Lemma traverse_broadcast_dim_exn (cols : list (list Z)) e :
  traverse (broadcast_dim 1) cols = Raise e → e = ValueError.
Proof.
  induction cols as [| c cols IH]; simpl; [done |].
  destruct (broadcast_dim 1 c) eqn:Hc; simpl.
  - destruct (traverse _ cols); simpl; [done |].
    intros [= <-]. by apply IH.
  - intros [= <-]. by apply broadcast_dim_exn in Hc.
Qed.

Lemma traverse_length {A B} (f : A → result B) xs ys :
  traverse f xs = Ok ys → length ys = length xs.
Proof.
  intros Hall%traverse_Ok_Forall2. symmetry. by eapply Forall2_length.
Qed.

(** Columns of [A ++ M] against columns of [res :: M], where [res] holds
    the results of the columns of [A]. *)
Lemma traverse_columns_app (n : nat) (A M : list (list Z)) :
  traverse (broadcast_dim 1) (zip_longest_n n 1 (A ++ M))
  = (res ← traverse (broadcast_dim 1) (zip_longest_n n 1 A);
     traverse (broadcast_dim 1) (zip_longest_n n 1 (res :: M))).
Proof.
  revert A M. induction n as [| n IH]; intros A M; [done |].
  cbn [zip_longest_n traverse]. rewrite !fmap_app, broadcast_dim_app, IH.
  destruct (broadcast_dim 1 (hd 1 <$> A)) as [a | e] eqn:Ha; [| done].
  apply broadcast_dim_ge in Ha.
  destruct (traverse (broadcast_dim 1) (zip_longest_n n 1 (tail <$> A)))
    as [ra | e] eqn:Hra.
  - change ((Ok a ≫= λ r, broadcast_dim r (hd 1 <$> M)))
      with (broadcast_dim a (hd 1 <$> M)).
    by rewrite <- (broadcast_dim_restart a (hd 1 <$> M)) by done.
  - change ((Ok a ≫= λ r, broadcast_dim r (hd 1 <$> M)))
      with (broadcast_dim a (hd 1 <$> M)).
    apply traverse_broadcast_dim_exn in Hra as ->.
    destruct (broadcast_dim a (hd 1 <$> M)) as [c | e'] eqn:Hc; [done |].
    by apply broadcast_dim_exn in Hc as ->.
Qed.

Lemma zip_longest_n_pad (n : nat) (fill : Z) (l : list Z) (k : nat)
  (ls : list (list Z)) :
  zip_longest_n n fill ((l ++ replicate k fill) :: ls)
  = zip_longest_n n fill (l :: ls).
Proof.
  revert l k ls. induction n as [| n IH]; intros l k ls; [done |].
  cbn [zip_longest_n fmap list_fmap]. destruct l as [| x l].
  - destruct k as [| k]; [done |]. simpl.
    f_equal. apply (IH [] k).
  - simpl. f_equal. apply IH.
Qed.

Lemma max_length_tail (ls : list (list Z)) :
  max_length (tail <$> ls) = Nat.pred (max_length ls).
Proof.
  induction ls as [| l ls IH]; [done |].
  cbn [fmap list_fmap max_length foldr]. fold (fmap (M:=list) (@tail Z)).
  fold (max_length (tail <$> ls)). fold (max_length ls).
  rewrite IH. destruct l; simpl; lia.
Qed.

Lemma max_length_app (ls ls' : list (list Z)) :
  max_length (ls ++ ls') = Nat.max (max_length ls) (max_length ls').
Proof.
  induction ls as [| l ls IH]; [done |].
  cbn [app max_length foldr]. fold (max_length (ls ++ ls')).
  fold (max_length ls). rewrite IH. lia.
Qed.

Lemma broadcast_dim_all_empty (ls : list (list Z)) :
  max_length ls = 0%nat → broadcast_dim 1 (hd 1 <$> ls) = Ok 1.
Proof.
  induction ls as [| l ls IH]; [done |].
  cbn [max_length foldr]. fold (max_length ls). intros Hmax.
  destruct l; [| simpl in Hmax; lia].
  simpl. apply IH. lia.
Qed.

Lemma traverse_columns_pad (n : nat) (ls : list (list Z)) :
  (max_length ls ≤ n)%nat →
  traverse (broadcast_dim 1) (zip_longest_n n 1 ls)
  = (res ← traverse (broadcast_dim 1) (zip_longest_n (max_length ls) 1 ls);
     Ok (res ++ replicate (n - max_length ls) 1)).
Proof.
  revert ls. induction n as [| n IH]; intros ls Hn.
  - by replace (max_length ls) with 0%nat by lia.
  - cbn [zip_longest_n traverse].
    rewrite (IH (tail <$> ls)) by (rewrite max_length_tail; lia).
    pose proof (max_length_tail ls) as Htl.
    destruct (max_length ls) as [| m] eqn:Hmax; simpl in Htl; rewrite Htl.
    + rewrite broadcast_dim_all_empty by done. simpl.
      by rewrite Nat.sub_0_r.
    + cbn [zip_longest_n traverse].
      destruct (broadcast_dim 1 (hd 1 <$> ls)); [| done].
      destruct (traverse _ (zip_longest_n m 1 (tail <$> ls))); [| done].
      simpl. by replace (n - m)%nat with (S n - S m)%nat by lia.
Qed.

(** X12: broadcasting may be done step by step: broadcasting a first
    group of shapes, and then the result with the remaining shapes, gives
    what broadcasting all the shapes at once gives, and raises when that
    raises; this holds for all sizes, size 0 included.  The empty shape of
    a scalar can be added to the shapes without any effect. *)
Theorem broadcast_shapes_app (shapes more : list (list Z)) :
  broadcast_shapes (shapes ++ more)
  = (r ← broadcast_shapes shapes; broadcast_shapes (r :: more))
  ∧ broadcast_shapes ([] :: more) = broadcast_shapes more.
Proof.
  assert (∀ shapes,
            broadcast_shapes (shapes ++ more)
            = (r ← broadcast_shapes shapes; broadcast_shapes (r :: more)))
    as Happ; [| split; [apply Happ | symmetry; apply (Happ [])]].
  clear shapes. intros shapes.
  unfold broadcast_shapes, zip_longest.
  rewrite fmap_app, traverse_columns_app.
  set (A := reverse <$> shapes). set (M := reverse <$> more).
  rewrite (traverse_columns_pad (max_length (A ++ M)) A)
    by (rewrite max_length_app; lia).
  destruct (traverse _ (zip_longest_n (max_length A) 1 A))
    as [res |] eqn:Hres; [| done].
  apply traverse_length in Hres. rewrite length_zip_longest_n in Hres.
  change (traverse (broadcast_dim 1)
            (zip_longest_n (max_length (A ++ M)) 1
               ((res ++ replicate (max_length (A ++ M) - max_length A) 1) :: M))
          ≫= (λ res0, Ok (reverse res0))
          = (res0 ← traverse (broadcast_dim 1)
                      (zip_longest_n (max_length (reverse (reverse res) :: M))
                         1 (reverse (reverse res) :: M));
             Ok (reverse res0))).
  rewrite zip_longest_n_pad, reverse_involutive.
  replace (max_length (res :: M)) with (max_length (A ++ M)); [done |].
  rewrite max_length_app. cbn [max_length foldr]. by rewrite Hres.
Qed.

Lemma traverse_single_columns (l : list Z) :
  traverse (broadcast_dim 1) (zip_longest_n (length l) 1 [l])
  = Ok (Z.max 1 <$> l).
Proof.
  induction l as [| x l IH]; [done |].
  cbn [length zip_longest_n traverse fmap list_fmap hd tail].
  fold (fmap (M:=list) (Z.max 1)). rewrite IH. simpl.
  case_bool_decide; simpl; f_equal; f_equal; lia.
Qed.

Lemma fmap_max_1_fixed (s : list Z) :
  Forall (fun d => 1 ≤ d) s ↔ Z.max 1 <$> s = s.
Proof.
  induction s as [| d s IH]; [by split; [| constructor] |].
  cbn [fmap list_fmap]. rewrite Forall_cons, IH. split.
  - intros [Hd ->]. f_equal. lia.
  - intros [= Hd Hs]. split; [by apply Z.max_r_iff | done].
Qed.

(** X13: broadcasting one shape alone never raises and returns it with
    every size below 1 replaced by 1; a shape whose sizes are all at least 1
    comes back unchanged. *)
Theorem broadcast_shapes_single (s : list Z) :
  broadcast_shapes [s] = Ok (Z.max 1 <$> s)
  ∧ (Forall (fun d => 1 ≤ d) s ↔ broadcast_shapes [s] = Ok s).
Proof.
  assert (broadcast_shapes [s] = Ok (Z.max 1 <$> s)) as Hone.
  { unfold broadcast_shapes, zip_longest.
    cbn [fmap list_fmap max_length foldr].
    rewrite Nat.max_0_r, traverse_single_columns. simpl.
    by rewrite <- fmap_reverse, reverse_involutive. }
  split; [done |]. rewrite Hone, fmap_max_1_fixed.
  split; [by intros -> | by intros [= ?]].
Qed.

Lemma max_length_reverse (shapes : list (list Z)) :
  max_length (reverse <$> shapes) = max_length shapes.
Proof.
  induction shapes as [| s shapes IH]; [done |].
  cbn [fmap list_fmap max_length foldr].
  fold (fmap (M:=list) (@reverse Z)). fold (max_length (reverse <$> shapes)).
  fold (max_length shapes). by rewrite IH, length_reverse.
Qed.

(** X14: the shape that [broadcast_shapes] returns has as many axes as the
    longest of the shapes it is given (none when it is given no shape). *)
Theorem broadcast_shapes_length (shapes : list (list Z)) (res : list Z) :
  broadcast_shapes shapes = Ok res →
  length res = max_length shapes
  ∧ ∀ s, s ∈ shapes → (length s ≤ length res)%nat.
Proof.
  unfold broadcast_shapes, zip_longest. intros Hres.
  destruct (traverse _ _) as [cols |] eqn:Hcols; [| done].
  injection Hres as <-.
  apply traverse_length in Hcols.
  rewrite length_zip_longest_n, max_length_reverse in Hcols.
  rewrite length_reverse. split; [done |].
  intros s Hs. rewrite Hcols. by apply max_length_ge.
Qed.

Lemma broadcast_shapes_length_witness :
  length [2; 3; 5] = max_length [[3; 1]; [2; 1; 5]]
  ∧ ∀ s, s ∈ [[3; 1]; [2; 1; 5]] → (length s ≤ length [2; 3; 5])%nat.
Proof.
  apply (broadcast_shapes_length [[3; 1]; [2; 1; 5]] [2; 3; 5]).
  reflexivity.
Defined.

(** The rule of the inner loop on sizes that are all at least 1, from any
    current value [dim >= 1]. *)
Lemma broadcast_dim_rule (col : list Z) (dim m : Z) :
  1 ≤ dim → Forall (fun d => 1 ≤ d) col →
  broadcast_dim dim col = Ok m
  ↔ (dim = 1 ∨ dim = m) ∧ Forall (fun d => d = 1 ∨ d = m) col
    ∧ (m = dim ∨ m ∈ col).
Proof.
  intros Hdim Hcol. revert dim Hdim.
  induction Hcol as [| d col Hd _ IH]; intros dim Hdim; simpl.
  - rewrite elem_of_nil. split.
    + intros [= <-]. split; [by right | split; [constructor | by left]].
    + intros (_ & _ & [-> | []]). done.
  - rewrite Forall_cons, elem_of_cons.
    repeat (case_bool_decide; simpl).
    all: try (split; [done | intros ?; exfalso; intuition lia]).
    all: try (rewrite (IH d) by lia; intuition (subst; auto; lia)).
    all: rewrite (IH dim) by lia; intuition (subst; auto; lia).
Qed.

(** X15: the broadcasting rule on sizes that are all at least 1: the loop
    over the sizes aligned at one axis returns [m] exactly when every one of
    them is 1 or [m], and [m] is 1 or one of them; otherwise it raises. *)
Theorem broadcast_dim_numpy_rule (col : list Z) (m : Z) :
  Forall (fun d => 1 ≤ d) col →
  (broadcast_dim 1 col = Ok m
   ↔ Forall (fun d => d = 1 ∨ d = m) col ∧ (m = 1 ∨ m ∈ col))
  ∧ (broadcast_dim 1 col = Raise ValueError
     ↔ ∃ d d', d ∈ col ∧ d' ∈ col ∧ d ≠ 1 ∧ d' ≠ 1 ∧ d ≠ d').
Proof.
  intros Hcol.
  assert (∀ m, broadcast_dim 1 col = Ok m
          ↔ Forall (fun d => d = 1 ∨ d = m) col ∧ (m = 1 ∨ m ∈ col)) as Hok.
  { intros m'. rewrite broadcast_dim_rule by (done || lia). intuition auto. }
  split; [done |]. split.
  - intros Hraise.
    destruct (decide (Forall (fun d => d = 1) col)) as [Hones | Hnot].
    { assert (broadcast_dim 1 col = Ok 1) as Hone; [| congruence].
      apply Hok. split; [| by left].
      eapply Forall_impl; [exact Hones | by intros ? ?; left]. }
    apply not_Forall_Exists in Hnot; [| solve_decision].
    apply Exists_exists in Hnot as (d & Hd & Hd1). simpl in Hd1.
    destruct (decide (Forall (fun d' => d' = 1 ∨ d' = d) col))
      as [Hall | Hnall].
    { assert (broadcast_dim 1 col = Ok d) as Hone; [| congruence].
      apply Hok. split; [done | by right]. }
    apply not_Forall_Exists in Hnall; [| solve_decision].
    apply Exists_exists in Hnall as (d' & Hd' & Hdd'). simpl in Hdd'.
    exists d, d'. do 3 (split; [done |]).
    split; intros ->; apply Hdd'; auto.
  - intros (d & d' & Hd & Hd' & Hd1 & Hd'1 & Hne).
    destruct (broadcast_dim 1 col) as [m' | e] eqn:Hres.
    + destruct (Hok m') as [[Hall _] _]; [done |].
      rewrite Forall_forall in Hall.
      pose proof (Hall d Hd). pose proof (Hall d' Hd'). lia.
    + by apply broadcast_dim_exn in Hres as ->.
Qed.

Lemma broadcast_dim_numpy_rule_witness :
  (broadcast_dim 1 [1; 4; 1; 4] = Ok 4
   ↔ Forall (fun d => d = 1 ∨ d = 4) [1; 4; 1; 4] ∧ (4 = 1 ∨ 4 ∈ [1; 4; 1; 4]))
  ∧ (broadcast_dim 1 [1; 4; 1; 4] = Raise ValueError
     ↔ ∃ d d', d ∈ [1; 4; 1; 4] ∧ d' ∈ [1; 4; 1; 4]
               ∧ d ≠ 1 ∧ d' ≠ 1 ∧ d ≠ d').
Proof.
  apply (broadcast_dim_numpy_rule [1; 4; 1; 4] 4).
  repeat constructor; lia.
Defined.

(** X16: when shapes whose sizes are all at least 1 broadcast to [res],
    each of them fits [res]: counted from the last axis, every size of an
    input shape is 1 or the size of [res] at that axis. *)
Theorem broadcast_shapes_fits (shapes : list (list Z)) (res s : list Z)
  (k : nat) (d : Z) :
  broadcast_shapes shapes = Ok res →
  Forall (Forall (fun d => 1 ≤ d)) shapes →
  s ∈ shapes → reverse s !! k = Some d →
  ∃ m, reverse res !! k = Some m ∧ (d = 1 ∨ d = m).
Proof.
  unfold broadcast_shapes, zip_longest. intros Hres Hpos Hs Hd.
  destruct (traverse _ _) as [cols |] eqn:Hcols; [| done].
  injection Hres as <-. rewrite reverse_involutive.
  apply traverse_Ok_Forall2 in Hcols.
  set (ls := reverse <$> shapes) in *.
  assert (reverse s ∈ ls) as Hin by by apply list_elem_of_fmap_2.
  assert (k < max_length ls)%nat as Hk.
  { apply lookup_lt_Some in Hd. apply max_length_ge in Hin. lia. }
  pose proof (zip_longest_n_lookup 1 _ ls k Hk) as Hcol.
  destruct (Forall2_lookup_l _ _ _ _ _ Hcols Hcol) as (m & Hm & Hbd).
  exists m. split; [done |].
  apply broadcast_dim_rule in Hbd as (_ & Hall & _); [| lia |].
  - rewrite Forall_forall in Hall. apply Hall.
    apply (list_elem_of_fmap_2' _ _ (reverse s)); [done |]. by rewrite Hd.
  - apply Forall_fmap, Forall_fmap.
    eapply Forall_impl; [exact Hpos |].
    intros l Hl. simpl. destruct (reverse l !! k) as [x |] eqn:Hx; simpl; [| lia].
    apply list_elem_of_lookup_2 in Hx. rewrite Forall_forall in Hl.
    apply Hl. by apply elem_of_reverse.
Qed.

Lemma broadcast_shapes_fits_witness :
  ∃ m, reverse [2; 3; 5] !! 1%nat = Some m ∧ (3 = 1 ∨ 3 = m).
Proof.
  apply (broadcast_shapes_fits [[3; 1]; [2; 1; 5]] [2; 3; 5] [3; 1] 1 3).
  - reflexivity.
  - repeat constructor; lia.
  - apply list_elem_of_here.
  - reflexivity.
Defined.

Lemma broadcast_larger_then_zero_witness :
  broadcast_shapes [[2; 3]; [0]] = Raise ValueError.
Proof.
  apply (broadcast_larger_then_zero [0] [2; 3] 0 3); [reflexivity .. | lia].
Defined.

(** ** Manifolds, continued *)

(** X17: on a wrapper chain from [instance] down to [t], [ismanifold]
    raises a [TypeError] when [cls] is not a subclass of [Manifold], and
    otherwise tells whether [instance] is a manifold and the unwrapped [t]
    is an instance of [cls]; the wrappers in between play no part. *)
Theorem ismanifold_on_chain `{Hierarchy} (h : heap) (instance t : loc)
  (n fuel : nat) (cls : pyclass) :
  wrapper_chain h instance n t → (n < fuel)%nat →
  ismanifold fuel h instance cls
  = Some (if issubclass cls Manifold
          then Ok (isinstance h instance Manifold && isinstance h t cls)
          else Raise TypeError).
Proof.
  intros Hchain Hfuel. unfold ismanifold.
  destruct (issubclass cls Manifold); simpl; [| done].
  destruct (isinstance h instance Manifold); simpl; [| done].
  by apply (ismanifold_loop_enough_fuel _ _ _ _ _ Hchain).
Qed.

Lemma ismanifold_on_chain_witness :
  ismanifold 3 sample_heap 2%nat c_Euclidean
  = Some (if issubclass c_Euclidean Manifold
          then Ok (isinstance sample_heap 2%nat Manifold
                   && isinstance sample_heap 0%nat c_Euclidean)
          else Raise TypeError).
Proof.
  apply (ismanifold_on_chain sample_heap 2%nat 0%nat 2 3 c_Euclidean).
  - exact sample_chain_2.
  - lia.
Defined.

(** X18: inside a set of [Scaled] wrappers closed under [base] (a cycle
    of wrappers) neither loop ever stops, whatever the bound; the class
    check of [ismanifold] still comes first and raises its [TypeError]. *)
Theorem unwrap_cycle_diverges `{HierarchyLaws} (h : heap) (W : loc → Prop)
  (m : loc) (fuel : nat) (cls : pyclass) :
  (∀ x, W x → isinstance h x Scaled = true
              ∧ ∃ b, ob_base (h x) = Some b ∧ W b) →
  W m →
  canonical_manifold fuel h m = None
  ∧ ismanifold fuel h m cls
    = (if issubclass cls Manifold then None else Some (Raise TypeError)).
Proof.
  intros Hclosed Hm.
  assert (canonical_manifold fuel h m = None
          ∧ ismanifold_loop fuel h m cls = None) as [Hcan Hloop].
  { revert m Hm. induction fuel as [| fuel IH]; intros m Hm; [done |].
    destruct (Hclosed m Hm) as (Hscaled & b & Hbase & Hb).
    simpl. rewrite Hscaled, Hbase. by apply IH. }
  split; [done |]. unfold ismanifold.
  destruct (issubclass cls Manifold); simpl; [| done].
  destruct (Hclosed m Hm) as (Hscaled & _).
  unfold isinstance in *.
  by rewrite (issubclass_trans _ _ _ Hscaled Scaled_is_Manifold).
Qed.

Lemma unwrap_cycle_diverges_witness :
  canonical_manifold 50 sample_heap 4%nat = None
  ∧ ismanifold 50 sample_heap 4%nat c_Sphere
    = (if issubclass c_Sphere Manifold then None else Some (Raise TypeError)).
Proof.
  apply (unwrap_cycle_diverges sample_heap (fun x => x = 4%nat)).
  - intros x ->. split; [reflexivity |]. by exists 4%nat.
  - reflexivity.
Defined.

(** X19: unwrapping twice is unwrapping once: what [canonical_manifold]
    returns on a wrapper chain is returned unchanged by a second call, after
    a single test of the loop condition. *)
Theorem canonical_manifold_idempotent `{Hierarchy} (h : heap) (m t : loc)
  (n fuel fuel' : nat) :
  wrapper_chain h m n t → (n < fuel)%nat → (0 < fuel')%nat →
  ∃ t', canonical_manifold fuel h m = Some (Ok t')
        ∧ canonical_manifold fuel' h t' = Some (Ok t').
Proof.
  intros Hchain Hfuel Hfuel'. exists t.
  split; [by apply (canonical_manifold_enough_fuel _ _ _ _ Hchain) |].
  apply (canonical_manifold_enough_fuel h t 0 t); [| done].
  apply chain_end. by eapply wrapper_chain_end.
Qed.

Lemma canonical_manifold_idempotent_witness :
  ∃ t', canonical_manifold 3 sample_heap 2%nat = Some (Ok t')
        ∧ canonical_manifold 1 sample_heap t' = Some (Ok t').
Proof.
  apply (canonical_manifold_idempotent sample_heap 2%nat 0%nat 2 3 1).
  - exact sample_chain_2.
  - lia.
  - lia.
Defined.

(** ** Dropping axes, continued *)

Section drop_dims_more.
Variable axes : list Z.

Let slc_of (d : Z) : index := if decide (d ∉ axes) then SliceAll else At 0.

Lemma index_shape_raises pos (shp : list Z) e :
  index_shape (slc_of <$> seqZ pos (Z.of_nat (length shp))) shp = Raise e →
  e = IndexError
  ∧ ∃ (k : nat) n, pos + Z.of_nat k ∈ axes ∧ shp !! k = Some n ∧ n ≤ 0.
Proof.
  revert pos. induction shp as [| n shp IH]; intros pos; [done |].
  cbn [length]. rewrite range_cons. cbn [fmap list_fmap].
  fold (fmap (M:=list) slc_of).
  assert (index_shape (slc_of <$> seqZ (pos + 1) (Z.of_nat (length shp))) shp
          = Raise e →
          e = IndexError
          ∧ ∃ (k : nat) m, pos + Z.of_nat k ∈ axes
                           ∧ (n :: shp) !! k = Some m ∧ m ≤ 0) as Hrec.
  { intros (-> & k & m & Hk & Hm & Hle)%IH. split; [done |].
    exists (S k), m. split; [| done].
    by replace (pos + Z.of_nat (S k)) with (pos + 1 + Z.of_nat k) by lia. }
  unfold slc_of at 1. destruct (decide (pos ∉ axes)) as [Hout | Hin]; simpl.
  - destruct (index_shape _ shp); [done |]. intros [= <-]. by apply Hrec.
  - apply dec_stable in Hin. case_decide as Hn; [exact Hrec |].
    intros [= <-]. split; [done |]. exists 0%nat, n.
    rewrite Nat2Z.inj_0, Z.add_0_r. split; [done |]. split; [done | lia].
Qed.

Lemma index_source_all (shp pos : list Z) (start : Z) :
  axes = [] →
  index_source (slc_of <$> seqZ start (Z.of_nat (length shp))) shp pos = pos.
Proof.
  intros Hnone. revert pos start.
  induction shp as [| n shp IH]; intros pos start; [done |].
  cbn [length]. rewrite range_cons. cbn [fmap list_fmap].
  fold (fmap (M:=list) slc_of). unfold slc_of at 1.
  rewrite decide_True by (rewrite Hnone; apply not_elem_of_nil).
  simpl. destruct pos as [| j pos]; [done |]. by rewrite IH.
Qed.

Lemma without_axes_none {A} (l : list A) (start : Z) :
  axes = [] → without_axes axes start l = l.
Proof.
  intros ->. revert start. induction l as [| x l IH]; intros start; [done |].
  simpl. by rewrite IH.
Qed.
End drop_dims_more.

(** X20: [drop_dims] raises in two cases and no other: a
    [ZeroDivisionError] exactly when axes are given for a tensor of rank 0,
    and an [IndexError] exactly when one of the axes to drop has no element
    (there is no index 0 to take). *)
Theorem drop_dims_raises {A} (t : tensor A) (dims : list Z) :
  (drop_dims t dims = Raise ZeroDivisionError ↔ dim t = 0 ∧ dims ≠ [])
  ∧ (drop_dims t dims = Raise IndexError
     ↔ ∃ (k : nat) n, Z.of_nat k ∈ (fun d => d `mod` dim t) <$> dims
                      ∧ shape t !! k = Some n ∧ n ≤ 0)
  ∧ (∀ e, drop_dims t dims = Raise e
          → e = ZeroDivisionError ∨ e = IndexError).
Proof.
  destruct (decide (dim t = 0)) as [Hzero | Hrank].
  - assert (shape t = []) as Hshape.
    { unfold dim in Hzero. destruct (shape t); [done | simpl in Hzero; lia]. }
    assert (¬ ∃ (k : nat) n, Z.of_nat k ∈ (fun d => d `mod` dim t) <$> dims
                             ∧ shape t !! k = Some n ∧ n ≤ 0) as Hnone.
    { intros (k & n & _ & Hk & _). by rewrite Hshape in Hk. }
    destruct dims as [| d dims].
    + assert (∀ e, drop_dims t [] ≠ Raise e) as Hok.
      { intros e. unfold drop_dims, getitem, py_range. rewrite Hzero. simpl.
        by rewrite Hshape. }
      split; [split; [by intros ?%Hok | by intros [_ ?]] |].
      split; [split; [by intros ?%Hok | by intros ?%Hnone] |].
      by intros e ?%Hok.
    + rewrite (drop_dims_no_axes t d dims Hzero).
      split; [done |]. split; [split; [done | by intros ?%Hnone] |].
      intros e [= <-]. by left.
  - assert (0 < dim t) as Hpos by (unfold dim in *; lia).
    assert (∀ e, drop_dims t dims = Raise e →
              e = IndexError
              ∧ ∃ (k : nat) n, Z.of_nat k ∈ (fun d => d `mod` dim t) <$> dims
                               ∧ shape t !! k = Some n ∧ n ≤ 0) as Hinv.
    { intros e He. unfold drop_dims in He.
      rewrite canonical_dims_mod in He by done.
      unfold mbind at 1, result_bind, getitem, py_range, dim in He.
      destruct (index_shape _ (shape t)) as [s | e'] eqn:Hs; [done |].
      injection He as <-.
      apply index_shape_raises in Hs as (-> & k & n & Hk & Hn & Hle).
      split; [done |]. exists k, n. by rewrite Z.add_0_l in Hk. }
    split; [split; [by intros [? _]%Hinv | by intros [? _]] |].
    split.
    + split; [by intros [_ ?]%Hinv |].
      intros (k & n & Hk & Hn & Hle). by apply (drop_dims_no_first t dims k n).
    + intros e [-> _]%Hinv. by right.
Qed.

(** X21: with no axes to drop, [drop_dims] returns the tensor as it is,
    same shape and same elements, for every rank, rank 0 included. *)
Theorem drop_dims_nothing {A} (t : tensor A) :
  ∃ t', drop_dims t [] = Ok t'
        ∧ shape t' = shape t
        ∧ ∀ pos, item t' pos = item t pos.
Proof.
  unfold drop_dims, getitem, py_range, dim.
  change (canonical_dims [] (Z.of_nat (length (shape t)))) with (Ok (@nil Z)).
  unfold mbind at 1, result_bind.
  rewrite (index_shape_without [] 0 (shape t))
    by (intros k n Hk; by apply elem_of_nil in Hk).
  eexists. split; [reflexivity |]. cbn [shape item].
  split; [by apply without_axes_none |].
  intros pos. by rewrite (index_source_all [] (shape t) pos 0).
Qed.

(** X22: the result of [drop_dims] depends on the set of resolved axes
    only: the order of the axes, repetitions, and the choice between an
    axis and the same axis moved by a multiple of the rank (its negative
    form, or an index out of range) make no difference. *)
Theorem drop_dims_axis_set {A} (t : tensor A) (dims dims' : list Z) :
  0 < dim t →
  (∀ a, a ∈ (fun d => d `mod` dim t) <$> dims
        ↔ a ∈ (fun d => d `mod` dim t) <$> dims') →
  drop_dims t dims = drop_dims t dims'.
Proof.
  intros Hrank Hset. unfold drop_dims.
  rewrite !canonical_dims_mod by done.
  unfold mbind, result_bind. f_equal.
  apply list_fmap_ext. intros _ a _.
  destruct (decide (a ∉ _)) as [Hout | Hin];
    destruct (decide (a ∉ _)) as [Hout' | Hin']; try done.
  - apply dec_stable in Hin'. by apply Hset in Hin'.
  - apply dec_stable in Hin. by apply Hset in Hin.
Qed.

Lemma drop_dims_axis_set_witness :
  drop_dims (Tensor [2; 3; 4] (fun pos => pos)) [-1; 2; 5; 0]
  = drop_dims (Tensor [2; 3; 4] (fun pos => pos)) [0; 2].
Proof.
  apply drop_dims_axis_set; [reflexivity |].
  intros a. change (a ∈ [2; 2; 2; 0] ↔ a ∈ [0; 2]).
  rewrite !elem_of_cons, !elem_of_nil. tauto.
Defined.
